(** * Preview segment recorder (frigate/output/preview.py)

    Shallow embedding of [PreviewRecorder] (admission policy and window
    rollover) and of [FFMpegConverter] (playlist construction, encoder
    invocation, result reporting and cache cleanup).

    Timestamps are Python floats in the source; they are modelled here as
    exact rationals [Q].  Python's [str] of a float, used to build file names
    and ids, is kept abstract ([float_str]), as are the configured
    directories [CACHE_DIR] and [CLIPS_DIR]. *)

From Stdlib Require Import QArith Qround Lqa String List Bool ZArith Sorted Lia.
Import ListNotations.
Open Scope Q_scope.

(** ** Constants *)

Definition FOLDER_PREVIEW_FRAMES : string := "preview_frames".
Definition SUMMARY_OUTPUT_FPS : Q := 1.
Definition SUMMARY_SEGMENT_DURATION : Q := 30.

(** ** Data model *)

(** A tracked object as delivered in [current_tracked_objects]: only the
    keys read by [should_write_frame]. *)
Record TrackedObject := mkObject {
  current_zones : list string;
  stationary : bool
}.

(** A motion box is a [list[int]]. *)
Definition MotionBox := list Z.

(** The mutable fields of a [PreviewRecorder] that the logic touches
    ([config], queue and output geometry never change). *)
Record PreviewRecorder := mkRecorder {
  start_time : Q;
  last_output_time : Q;
  output_frames : list Q
}.

(** [PreviewRecorder.__init__]. *)
Definition recorder_init : PreviewRecorder := mkRecorder 0 0 [].

Definition set_start_time (s : PreviewRecorder) (t : Q) : PreviewRecorder :=
  mkRecorder t (last_output_time s) (output_frames s).
Definition set_last_output_time (s : PreviewRecorder) (t : Q) : PreviewRecorder :=
  mkRecorder (start_time s) t (output_frames s).
Definition set_output_frames (s : PreviewRecorder) (l : list Q) : PreviewRecorder :=
  mkRecorder (start_time s) (last_output_time s) l.

(** The frame cache directory: which paths currently exist. *)
Definition Store := string -> bool.

(** A playlist line fed to ffmpeg's concat demuxer: [file '<path>'] or
    [duration <seconds>]. *)
Inductive PlaylistLine :=
| PFile (path : string)
| PDuration (d : Q).

(** The record put on the inter-process queue with [INSERT_PREVIEW]. *)
Record PreviewRow := mkRow {
  row_id : string;
  row_camera : string;
  row_path : string;
  row_start_time : Q;
  row_end_time : Q;
  row_duration : Q
}.

(** Exceptions the modelled code can raise. *)
Inductive PyExc := IndexError.

(** The thread object built by [FFMpegConverter.__init__]. *)
Record FFMpegConverter := mkConverter {
  conv_camera : string;
  conv_frame_times : list Q;
  conv_path : string
}.

(** Outcome of [FFMpegConverter.run]: items put on the queue and the cache
    directory, either at normal completion or when an exception escapes. *)
Inductive RunOutcome :=
| Completed (queued : list PreviewRow) (cache : Store)
| Raised (e : PyExc) (queued : list PreviewRow) (cache : Store).

Section Preview.

(** [str(float)]: rendering of a timestamp inside file names and ids. *)
Variable float_str : Q -> string.
(** [frigate.const.CACHE_DIR] and [frigate.const.CLIPS_DIR]. *)
Variable CACHE_DIR CLIPS_DIR : string.

(** [os.path.join(CACHE_DIR, f"{FOLDER_PREVIEW_FRAMES}/preview_{camera}-{t}.jpg")] *)
Definition cache_path (camera : string) (t : Q) : string :=
  CACHE_DIR ++ "/" ++ FOLDER_PREVIEW_FRAMES ++ "/preview_" ++ camera ++ "-"
    ++ float_str t ++ ".jpg".

(** [PreviewRecorder.write_frame_to_cache]: (over)writes the jpg file. *)
Definition write_frame_to_cache (camera : string) (st : Store) (t : Q) : Store :=
  fun p => if String.eqb p (cache_path camera t) then true else st p.

(** [Path(...).unlink(missing_ok=True)]: never fails. *)
Definition unlink (p : string) (st : Store) : Store :=
  fun q => if String.eqb q p then false else st q.

(** ** [PreviewRecorder.should_write_frame] *)

Definition object_qualifies (o : TrackedObject) : bool :=
  (0 <? length (current_zones o))%nat && negb (stationary o).

Definition should_write_frame (self : PreviewRecorder)
    (current_tracked_objects : list TrackedObject)
    (motion_boxes : list MotionBox) (frame_time : Q) : bool * PreviewRecorder :=
  if Qlt_le_dec (frame_time - last_output_time self) (1 / SUMMARY_OUTPUT_FPS)
  then (false, self)
  else if existsb object_qualifies current_tracked_objects
  then (true, set_last_output_time self frame_time)
  else if Nat.eqb (Nat.modulo (length motion_boxes) 2) 1
  then (true, set_last_output_time self frame_time)
  else (false, self).

(** ** [PreviewRecorder.write_data] *)

(** Lines 176-177: [if self.start_time == 0: self.start_time = frame_time]. *)
Definition open_window (self : PreviewRecorder) (frame_time : Q) : PreviewRecorder :=
  if Qeq_bool (start_time self) 0 then set_start_time self frame_time else self.

(** Result of one [write_data] call: the new recorder state, the cache
    directory, and the [frame_times] list handed to a newly started
    [FFMpegConverter], if any.  The list passed to the converter is the old
    [self.output_frames] object; the reset rebinds the attribute to a fresh
    list, so the handed-off list is not mutated afterwards. *)
Definition write_data (camera : string) (self : PreviewRecorder) (st : Store)
    (current_tracked_objects : list TrackedObject)
    (motion_boxes : list MotionBox) (frame_time : Q)
    : PreviewRecorder * Store * option (list Q) :=
  let self1 := open_window self frame_time in
  let '(admitted, self2) :=
    should_write_frame self1 current_tracked_objects motion_boxes frame_time in
  let '(self3, st3) :=
    if admitted
    then (set_output_frames self2 (output_frames self2 ++ [frame_time]),
          write_frame_to_cache camera st frame_time)
    else (self2, st) in
  if Qlt_le_dec SUMMARY_SEGMENT_DURATION (frame_time - start_time self3)
  then
    let handed := output_frames self3 ++ [frame_time] in
    let st4 := write_frame_to_cache camera st3 frame_time in
    (set_output_frames (set_start_time self3 frame_time) [], st4, Some handed)
  else (self3, st3, None).


(** ** [FFMpegConverter] *)

(** [FFMpegConverter.__init__]: reads [frame_times[0]] and [frame_times[-1]]
    for the output path; both raise [IndexError] on an empty list. *)
Definition new_converter (camera : string) (frame_times : list Q)
    : PyExc + FFMpegConverter :=
  match frame_times with
  | [] => inl IndexError
  | t0 :: _ =>
      inr (mkConverter camera frame_times
             (CLIPS_DIR ++ "/previews/" ++ camera ++ "/" ++ float_str t0 ++ "-"
                ++ float_str (last frame_times t0) ++ ".mp4"))
  end.

(** Lines 59-64: the loop over [frame_times] with the running [last]. *)
Fixpoint playlist_loop (camera : string) (last_t : Q) (ts : list Q)
    : list PlaylistLine :=
  match ts with
  | [] => []
  | t :: ts' =>
      PFile (cache_path camera t) :: PDuration (t - last_t)
        :: playlist_loop camera t ts'
  end.

(** Lines 56-69: [last = self.frame_times[0]], the loop, then the last
    frame again with no duration. *)
Definition build_playlist (camera : string) (frame_times : list Q)
    : PyExc + list PlaylistLine :=
  match frame_times with
  | [] => inl IndexError
  | t0 :: _ =>
      inr (playlist_loop camera t0 frame_times
             ++ [PFile (cache_path camera (last frame_times t0))])
  end.

(** Lines 99-105: unlink every cached frame of the list. *)
Definition unlink_frames (camera : string) (frame_times : list Q) (st : Store)
    : Store :=
  fold_left (fun acc t => unlink (cache_path camera t) acc) frame_times st.

(** The row put on the queue on success (lines 83-95). *)
Definition preview_row (c : FFMpegConverter) (start end_ : Q) : PreviewRow :=
  mkRow (float_str end_ ++ "-" ++ float_str start) (conv_camera c) (conv_path c)
        start end_ (end_ - start).

(** [FFMpegConverter.run].  The external encoder is a black box mapping the
    playlist written to its stdin to its exit code. *)
Definition run (c : FFMpegConverter) (encoder : list PlaylistLine -> Z)
    (st : Store) : RunOutcome :=
  match build_playlist (conv_camera c) (conv_frame_times c) with
  | inl e => Raised e [] st
  | inr playlist =>
      let returncode := encoder playlist in
      match conv_frame_times c with
      | start :: end_ :: _ =>
          let queued :=
            if Z.eqb returncode 0 then [preview_row c start end_] else [] in
          Completed queued (unlink_frames (conv_camera c) (conv_frame_times c) st)
      | _ => Raised IndexError [] st
      end
  end.

(** ** Feeding a stream of frames *)

(** One call of [write_data]: the arguments besides [self] and the raw
    frame (whose pixels only matter for the jpg contents). *)
Record Frame := mkFrame {
  f_objects : list TrackedObject;
  f_motion : list MotionBox;
  f_time : Q
}.

Definition write_frame (camera : string) (ss : PreviewRecorder * Store) (f : Frame)
    : PreviewRecorder * Store * option (list Q) :=
  write_data camera (fst ss) (snd ss) (f_objects f) (f_motion f) (f_time f).

(** State after delivering a sequence of frames. *)
Fixpoint run_frames (camera : string) (ss : PreviewRecorder * Store)
    (frames : list Frame) : PreviewRecorder * Store :=
  match frames with
  | [] => ss
  | f :: fs =>
      let '(s', st', _) := write_frame camera ss f in
      run_frames camera (s', st') fs
  end.

(** Did [should_write_frame] return [True] during the [write_data] call? *)
Definition call_admits (self : PreviewRecorder) (f : Frame) : bool :=
  fst (should_write_frame (open_window self (f_time f)) (f_objects f)
                          (f_motion f) (f_time f)).

(** Timestamps of the calls in which [should_write_frame] returned [True]. *)
Fixpoint admitted_times (camera : string) (ss : PreviewRecorder * Store)
    (frames : list Frame) : list Q :=
  match frames with
  | [] => []
  | f :: fs =>
      let '(s', st', _) := write_frame camera ss f in
      (if call_admits (fst ss) f then [f_time f] else [])
        ++ admitted_times camera (s', st') fs
  end.

(** Segments handed to converters, in order. *)
Fixpoint handed_segments (camera : string) (ss : PreviewRecorder * Store)
    (frames : list Frame) : list (list Q) :=
  match frames with
  | [] => []
  | f :: fs =>
      let '(s', st', h) := write_frame camera ss f in
      match h with Some l => [l] | None => [] end
        ++ handed_segments camera (s', st') fs
  end.

(** Durations listed in a playlist, in order, and their sum. *)
Definition durations (pl : list PlaylistLine) : list Q :=
  flat_map (fun l => match l with PDuration d => [d] | PFile _ => [] end) pl.

Definition sum_Q (l : list Q) : Q := fold_right Qplus 0 l.

(** The playlist as the spec describes it: for each [t_i] a file line and a
    duration [t_i - t_{i-1}] (the first entry paired with itself), then the
    last file once more. *)
Definition spec_playlist (camera : string) (t0 : Q) (frame_times : list Q)
    : list PlaylistLine :=
  concat (map (fun '(t, prev) => [PFile (cache_path camera t); PDuration (t - prev)])
              (combine frame_times (t0 :: frame_times)))
    ++ [PFile (cache_path camera (last frame_times t0))].

(** A window in which [should_write_frame] rejects every frame: no tracked
    object, no motion box, 31 seconds apart. *)
Definition all_rejected_window : list Frame :=
  [mkFrame [] [] 100; mkFrame [] [] 131].

(** Concrete parameters and streams used to exercise the theorems. *)
Definition demo_float_str (q : Q) : string :=
  if Qeq_bool q 100 then "100.0" else if Qeq_bool q 131 then "131.0" else "0.0".
Definition demo_cache_dir : string := "/tmp/cache".
Definition no_files : Store := fun _ => false.

(** One frame admitted on an odd motion-box count at 100, then a frame
    rejected by the policy at 131 that closes the window. *)
Definition admitted_then_rejected_close : list Frame :=
  [mkFrame [] [[0; 0; 10; 10]%Z] 100; mkFrame [] [] 131].

(** The window of [admitted_then_rejected_close], open at 100 with one
    admitted frame. *)
Definition open_at_100 : PreviewRecorder := mkRecorder 100 100 [100].

(** Timestamps appended to [self.output_frames] during each call, in order:
    the frame time when [should_write_frame] admitted it (line 180), and the
    frame time again when the call closed the window (line 186). *)
Fixpoint appended_times (camera : string) (ss : PreviewRecorder * Store)
    (frames : list Frame) : list Q :=
  match frames with
  | [] => []
  | f :: fs =>
      let '(s', st', h) := write_frame camera ss f in
      (if call_admits (fst ss) f then [f_time f] else [])
        ++ match h with Some _ => [f_time f] | None => [] end
        ++ appended_times camera (s', st') fs
  end.

(** Every cached frame of the open window is present in the cache. *)
Definition window_cached (camera : string) (s : PreviewRecorder) (st : Store) : Prop :=
  Forall (fun t => st (cache_path camera t) = true) (output_frames s).

(** File lines of a playlist. *)
Definition playlist_files (pl : list PlaylistLine) : list string :=
  flat_map (fun l => match l with PFile p => [p] | PDuration _ => [] end) pl.


(** ** Reference admission policy (spec, section 4.1)

    Rules evaluated in order: rate limit against [1/targetFps] with
    targetFps = 1, then a zoned non-stationary object, then an odd number of
    motion boxes, otherwise reject. *)
Definition spec_significant (o : TrackedObject) : bool :=
  match current_zones o with
  | [] => false
  | _ :: _ => negb (stationary o)
  end.

Definition spec_admits (last_admission : Q)
    (objs : list TrackedObject) (motion_boxes : list MotionBox) (t : Q) : bool :=
  if negb (Qle_bool 1 (t - last_admission)) then false
  else if existsb spec_significant objs then true
  else Nat.odd (length motion_boxes).

(** ** Proofs *)

Ltac case_ifs :=
  repeat (match goal with
          | |- context [if ?c then _ else _] => destruct c eqn:?
          end; simpl in * ).

Lemma odd_mod2 n : Nat.odd n = Nat.eqb (Nat.modulo n 2) 1.
Proof.
  destruct (Nat.Even_or_Odd n) as [[k ->]|[k ->]].
  - rewrite Nat.odd_mul, Nat.mul_comm, Nat.Div0.mod_mul. reflexivity.
  - rewrite Nat.odd_add, Nat.odd_mul, Nat.add_comm, Nat.mul_comm,
      Nat.Div0.mod_add. reflexivity.
Qed.

Lemma one_over_fps : 1 / SUMMARY_OUTPUT_FPS == 1.
Proof. reflexivity. Qed.

Lemma object_qualifies_spec o : object_qualifies o = spec_significant o.
Proof. destruct o as [[|z zs] b]; reflexivity. Qed.

Lemma existsb_qualifies objs :
  existsb object_qualifies objs = existsb spec_significant objs.
Proof.
  induction objs as [|o os IH]; simpl; [reflexivity|].
  rewrite object_qualifies_spec, IH. reflexivity.
Qed.

(** The verdict of [should_write_frame], without its state update. *)
Lemma should_write_frame_verdict self objs mb t :
  fst (should_write_frame self objs mb t)
  = spec_admits (last_output_time self) objs mb t.
Proof.
  unfold should_write_frame, spec_admits.
  rewrite existsb_qualifies, odd_mod2.
  destruct (Qlt_le_dec _ _) as [Hlt|Hle].
  - rewrite one_over_fps in Hlt.
    assert (Qle_bool 1 (t - last_output_time self) = false) as ->.
    { apply not_true_iff_false. rewrite Qle_bool_iff. lra. }
    reflexivity.
  - rewrite one_over_fps in Hle.
    assert (Qle_bool 1 (t - last_output_time self) = true) as ->.
    { rewrite Qle_bool_iff. lra. }
    simpl. destruct (existsb _ _); [reflexivity|].
    destruct (Nat.eqb _ _); reflexivity.
Qed.

(** The state after [should_write_frame]: [last_output_time] moves to the
    frame time on [True], nothing changes on [False]. *)
Lemma should_write_frame_state self objs mb t :
  snd (should_write_frame self objs mb t)
  = if fst (should_write_frame self objs mb t)
    then set_last_output_time self t else self.
Proof. unfold should_write_frame. case_ifs; reflexivity. Qed.

(** C2: [should_write_frame] is the reference admission policy (rules 1-4
    in order), sets [last_output_time] to [frame_time] exactly when it
    returns [True], and leaves the state unchanged when it returns [False]. *)
Theorem should_write_frame_matches_policy self objs mb t :
  should_write_frame self objs mb t
  = (spec_admits (last_output_time self) objs mb t,
     if spec_admits (last_output_time self) objs mb t
     then set_last_output_time self t else self).
Proof.
  rewrite <- should_write_frame_verdict.
  rewrite <- should_write_frame_state.
  destruct (should_write_frame self objs mb t); reflexivity.
Qed.

(** [open_window] touches [start_time] only. *)
Lemma open_window_fields self t :
  start_time (open_window self t)
    = (if Qeq_bool (start_time self) 0 then t else start_time self) /\
  last_output_time (open_window self t) = last_output_time self /\
  output_frames (open_window self t) = output_frames self.
Proof. unfold open_window. case_ifs; auto. Qed.

(** One [write_data] call, with the effect of [should_write_frame] and of
    the rollover written out field by field. *)
Lemma write_data_eq camera self st objs mb t :
  write_data camera self st objs mb t =
  let s1 := if Qeq_bool (start_time self) 0 then t else start_time self in
  let admitted := call_admits self (mkFrame objs mb t) in
  let lo := if admitted then t else last_output_time self in
  let frames := output_frames self ++ (if admitted then [t] else []) in
  let st3 := if admitted then write_frame_to_cache camera st t else st in
  if Qlt_le_dec SUMMARY_SEGMENT_DURATION (t - s1)
  then (mkRecorder t lo [], write_frame_to_cache camera st3 t,
        Some (frames ++ [t]))
  else (mkRecorder s1 lo frames, st3, None).
Proof.
  unfold write_data, call_admits.
  destruct (open_window_fields self t) as (Hs & Hl & Hf).
  rewrite (surjective_pairing (should_write_frame (open_window self t) objs mb t)).
  rewrite (should_write_frame_state (open_window self t) objs mb t).
  cbn [f_objects f_motion f_time].
  destruct (fst (should_write_frame (open_window self t) objs mb t)).
  - unfold set_output_frames, set_last_output_time, set_start_time.
    cbn [start_time last_output_time output_frames].
    rewrite ?Hs, ?Hl, ?Hf. destruct (Qlt_le_dec _ _); reflexivity.
  - rewrite app_nil_r.
    unfold set_output_frames, set_start_time.
    cbn [start_time last_output_time output_frames].
    rewrite <- Hs, <- Hl, <- Hf.
    destruct (open_window self t); cbn [start_time last_output_time output_frames].
    destruct (Qlt_le_dec _ _); reflexivity.
Qed.

(** C6: the window state machine of [write_data].  With the sentinel
    [start_time == 0] the call opens the window at [frame_time] whether or not
    the frame is admitted (and cannot close it); a window closes exactly when
    [frame_time - start_time > SUMMARY_SEGMENT_DURATION]; on close
    [start_time] becomes the closing frame's time and [output_frames] is
    emptied. *)
Theorem write_data_window_transitions camera self st objs mb t :
  let s1 := if Qeq_bool (start_time self) 0 then t else start_time self in
  match write_data camera self st objs mb t with
  | (self', _, handed) =>
      (Qeq_bool (start_time self) 0 = true ->
         start_time self' = t /\ handed = None) /\
      (handed <> None <-> SUMMARY_SEGMENT_DURATION < t - s1) /\
      (handed <> None -> start_time self' = t /\ output_frames self' = []) /\
      (handed = None -> start_time self' = s1)
  end.
Proof.
  intros s1. rewrite write_data_eq. cbv zeta. fold s1.
  unfold SUMMARY_SEGMENT_DURATION.
  destruct (Qlt_le_dec 30 (t - s1)) as [Hc|Hc]; cbn [start_time output_frames].
  - refine (conj _ (conj _ (conj _ _))).
    + intros H0. exfalso. unfold s1 in Hc. rewrite H0 in Hc. lra.
    + split; [intros _; exact Hc | discriminate].
    + intros _. split; reflexivity.
    + discriminate.
  - refine (conj _ (conj _ (conj _ _))).
    + unfold s1. intros ->. split; reflexivity.
    + split; [intros []; reflexivity | intros H; lra].
    + intros []; reflexivity.
    + intros _; reflexivity.
Qed.

(** C10: the forced admission at window close does not touch
    [last_output_time]: after [write_data] it is the value left by
    [should_write_frame] (the frame time if the policy admitted the frame,
    the old value otherwise); the close itself sets [start_time], empties
    [output_frames] and writes the closing frame to the cache. *)
Theorem write_data_forced_frame_keeps_last_output camera self st objs mb t :
  let admitted := call_admits self (mkFrame objs mb t) in
  let after_policy := snd (should_write_frame (open_window self t) objs mb t) in
  match write_data camera self st objs mb t with
  | (self', st', handed) =>
      last_output_time self' = last_output_time after_policy /\
      last_output_time self' = (if admitted then t else last_output_time self) /\
      (handed <> None ->
         start_time self' = t /\ output_frames self' = [] /\
         st' = write_frame_to_cache camera
                 (if admitted then write_frame_to_cache camera st t else st) t)
  end.
Proof.
  intros admitted after_policy.
  assert (Hlo : last_output_time after_policy
                = if admitted then t else last_output_time self).
  { unfold after_policy, admitted, call_admits; cbn [f_objects f_motion f_time].
    rewrite should_write_frame_state.
    destruct (fst _); [reflexivity|apply open_window_fields]. }
  rewrite write_data_eq. cbv zeta. fold admitted.
  destruct (Qlt_le_dec _ _); cbn [start_time last_output_time output_frames];
    repeat split; try congruence.
Qed.


(** *** Converter *)

Lemma last_cons_default (t d : Q) ts : last (t :: ts) d = last ts t.
Proof.
  revert t d. induction ts as [|a ts IH]; intros t d; [reflexivity|].
  change (last (a :: ts) d = last (a :: ts) t). rewrite !IH. reflexivity.
Qed.

Lemma playlist_loop_combine camera prev ts :
  playlist_loop camera prev ts
  = concat (map (fun '(t, p) => [PFile (cache_path camera t); PDuration (t - p)])
                (combine ts (prev :: ts))).
Proof.
  revert prev. induction ts as [|t ts IH]; intros prev; [reflexivity|].
  simpl. rewrite IH. reflexivity.
Qed.

Lemma playlist_loop_durations_nonneg camera prev ts :
  Sorted Qle (prev :: ts) -> Forall (fun d => 0 <= d) (durations (playlist_loop camera prev ts)).
Proof.
  revert prev. induction ts as [|t ts IH]; intros prev Hs; simpl; [constructor|].
  apply Sorted_inv in Hs as [Hs Hhd]. inversion Hhd; subst.
  constructor; [lra|]. apply IH, Hs.
Qed.

Lemma playlist_loop_durations_sum camera prev ts :
  sum_Q (durations (playlist_loop camera prev ts)) == last ts prev - prev.
Proof.
  revert prev. induction ts as [|t ts IH]; intros prev; [simpl; ring|].
  rewrite last_cons_default. specialize (IH t).
  unfold sum_Q in *. simpl. lra.
Qed.

Lemma durations_app l1 l2 : durations (l1 ++ l2) = durations l1 ++ durations l2.
Proof. unfold durations. apply flat_map_app. Qed.

(** C4: for a non-decreasing [frame_times], [run] feeds ffmpeg a file line
    and a duration [t_i - t_{i-1}] for each timestamp in order (the first
    file line has no duration before it, its own duration being 0), then
    the last file line again without duration; all durations are
    non-negative and add up to [last - first]. *)
Theorem build_playlist_durations camera t0 ts :
  Sorted Qle (t0 :: ts) ->
  exists playlist,
    build_playlist camera (t0 :: ts) = inr playlist /\
    playlist = spec_playlist camera t0 (t0 :: ts) /\
    hd_error playlist = Some (PFile (cache_path camera t0)) /\
    Forall (fun d => 0 <= d) (durations playlist) /\
    sum_Q (durations playlist) == last (t0 :: ts) t0 - t0.
Proof.
  intros Hs. eexists. split; [reflexivity|].
  split; [unfold spec_playlist; rewrite <- playlist_loop_combine; reflexivity|].
  split; [reflexivity|].
  rewrite durations_app. simpl (durations [_]). rewrite app_nil_r.
  split.
  - simpl. constructor; [lra|].
    apply playlist_loop_durations_nonneg, Hs.
  - rewrite playlist_loop_durations_sum. reflexivity.
Qed.

(** C3: for a list with at least two entries, [run] completes for every
    encoder; on exit code 0 it queues exactly one row with
    [start = frame_times[0]], [end = frame_times[1]],
    [duration = end - start] and id ["<end>-<start>"]; on any other exit
    code it queues nothing. *)
Theorem run_result_on_success camera t0 t1 rest encoder st :
  match new_converter camera (t0 :: t1 :: rest),
        build_playlist camera (t0 :: t1 :: rest) with
  | inr c, inr playlist =>
      exists st',
        run c encoder st
        = Completed (if Z.eqb (encoder playlist) 0
                     then [mkRow (float_str t1 ++ "-" ++ float_str t0) camera
                                 (conv_path c) t0 t1 (t1 - t0)]
                     else []) st'
  | _, _ => False
  end.
Proof. simpl. eexists. reflexivity. Qed.

Lemma unlink_frames_spec camera ts st p :
  unlink_frames camera ts st p
  = if existsb (String.eqb p) (map (cache_path camera) ts) then false else st p.
Proof.
  unfold unlink_frames. revert st.
  induction ts as [|t ts IH]; intros st; [reflexivity|].
  simpl. rewrite IH. unfold unlink.
  destruct (String.eqb p (cache_path camera t)); simpl;
    [destruct (existsb _ _); reflexivity | reflexivity].
Qed.

(** C5: whenever [run] completes, whatever the encoder's exit code, every
    cache file named by a timestamp of its list is gone and every other
    path of the cache directory is as before; missing files raise nothing,
    so [run] completes on every list of at least two timestamps whatever
    the cache contents. *)
Theorem run_cleans_own_frames c encoder st :
  (forall q st', run c encoder st = Completed q st' ->
     forall p, st' p = if existsb (String.eqb p)
                             (map (cache_path (conv_camera c)) (conv_frame_times c))
                       then false else st p) /\
  ((2 <= length (conv_frame_times c))%nat ->
     exists q st', run c encoder st = Completed q st').
Proof.
  split.
  - intros q st' H p.
    assert (st' = unlink_frames (conv_camera c) (conv_frame_times c) st) as ->.
    { unfold run, build_playlist in H.
      destruct (conv_frame_times c) as [|t0 [|t1 rest]]; try discriminate.
      injection H as _ <-. reflexivity. }
    apply unlink_frames_spec.
  - intros Hlen. unfold run, build_playlist.
    destruct (conv_frame_times c) as [|t0 [|t1 rest]]; simpl in Hlen; try lia.
    eexists; eexists; reflexivity.
Qed.

(** C9: a window in which every frame is rejected hands the one-element
    list [[131]] to the converter; [run] then raises [IndexError] at
    [frame_times[1]], after the encoder ran, so no row is queued and the
    cached frame is not unlinked. *)
Theorem all_rejected_window_index_error camera encoder st :
  handed_segments camera (recorder_init, st) all_rejected_window = [[131]] /\
  match new_converter camera [131] with
  | inr c => run c encoder st = Raised IndexError [] st
  | inl _ => False
  end.
Proof. split; reflexivity. Qed.

(** *** Sequences of frames *)

Lemma write_frame_last_output camera ss f :
  last_output_time (fst (fst (write_frame camera ss f)))
  = if call_admits (fst ss) f then f_time f else last_output_time (fst ss).
Proof.
  destruct f as [objs mb t]. unfold write_frame. cbn [f_objects f_motion f_time].
  rewrite write_data_eq. cbv zeta. destruct (Qlt_le_dec _ _); reflexivity.
Qed.

Lemma call_admits_gap self f :
  call_admits self f = true -> last_output_time self + 1 <= f_time f.
Proof.
  unfold call_admits. rewrite should_write_frame_verdict.
  destruct (open_window_fields self (f_time f)) as (_ & -> & _).
  unfold spec_admits.
  destruct (Qle_bool 1 _) eqn:H; [|discriminate].
  apply Qle_bool_iff in H. intros _. lra.
Qed.

Lemma admitted_after_last camera ss frames :
  Forall (fun b => last_output_time (fst ss) + 1 <= b)
         (admitted_times camera ss frames).
Proof.
  revert ss. induction frames as [|f fs IH]; intros ss; simpl; [constructor|].
  pose proof (write_frame_last_output camera ss f) as L.
  pose proof (call_admits_gap (fst ss) f) as G.
  destruct (write_frame camera ss f) as [[s' st'] h]. simpl in L.
  specialize (IH (s', st')). simpl in IH. rewrite L in IH.
  destruct (call_admits (fst ss) f); simpl.
  - specialize (G eq_refl). constructor; [exact G|].
    eapply Forall_impl; [|exact IH]. simpl. intros b Hb. lra.
  - exact IH.
Qed.

(** C7: over any sequence of [write_data] calls, any two calls in which
    [should_write_frame] returned [True] have frame times at least
    [1/SUMMARY_OUTPUT_FPS] apart, the later one being the larger. *)
Theorem admissions_rate_limited camera ss frames :
  ForallOrdPairs (fun a b => a + 1 / SUMMARY_OUTPUT_FPS <= b)
                 (admitted_times camera ss frames).
Proof.
  revert ss. induction frames as [|f fs IH]; intros ss; simpl; [constructor|].
  pose proof (write_frame_last_output camera ss f) as L.
  destruct (write_frame camera ss f) as [[s' st'] h]. simpl in L.
  specialize (IH (s', st')).
  pose proof (admitted_after_last camera (s', st') fs) as A'.
  simpl in A'. rewrite L in A'.
  destruct (call_admits (fst ss) f); simpl.
  - constructor; [|exact IH].
    eapply Forall_impl; [|exact A']. simpl. intros b Hb.
    rewrite one_over_fps. lra.
  - exact IH.
Qed.

Lemma Sorted_snoc (l : list Q) t :
  Sorted Qle l -> Forall (fun x => x <= t) l -> Sorted Qle (l ++ [t]).
Proof.
  induction l as [|a l IH]; intros Hs Hf; simpl; [repeat constructor|].
  apply Sorted_inv in Hs as [Hs Hhd]. inversion Hf; subst.
  constructor; [apply IH; assumption|].
  destruct l as [|b l]; simpl; constructor; [assumption|].
  inversion Hhd; assumption.
Qed.

Lemma Sorted_firstn (l : list Q) k : Sorted Qle l -> Sorted Qle (firstn k l).
Proof.
  revert k. induction l as [|a l IH]; intros k Hs; destruct k as [|k]; simpl.
  1-3: constructor.
  apply Sorted_inv in Hs as [Hs Hhd].
  constructor; [apply IH, Hs|].
  destruct k, l; simpl; constructor. inversion Hhd; assumption.
Qed.

(** Invariant of the recorder after frames up to time [hi]. *)
Definition window_inv (hi : Q) (s : PreviewRecorder) : Prop :=
  0 <= last_output_time s /\
  (start_time s == 0 -> output_frames s = []) /\
  Sorted Qle (output_frames s) /\
  Forall (fun x => start_time s <= x) (output_frames s) /\
  Forall (fun x => x <= hi) (output_frames s) /\
  (~ start_time s == 0 -> start_time s <= hi).

Ltac split_inv := refine (conj _ (conj _ (conj _ (conj _ (conj _ _))))).
Ltac finish_inv :=
  solve [ assumption | lra | intros; lra | intros; contradiction
        | repeat constructor; lra | repeat constructor ].

Lemma window_inv_init hi : window_inv hi recorder_init.
Proof.
  unfold window_inv, recorder_init; cbn [start_time last_output_time output_frames].
  split_inv; try constructor.
  - apply Qle_refl.
  - intros H. exfalso. apply H. reflexivity.
Qed.

Lemma window_inv_step camera ss f hi :
  hi <= f_time f -> window_inv hi (fst ss) ->
  window_inv (f_time f) (fst (fst (write_frame camera ss f))).
Proof.
  intros Hhi Hinv.
  pose proof (call_admits_gap (fst ss) f) as G.
  destruct f as [objs mb t]. unfold write_frame. cbn [f_objects f_motion f_time] in *.
  destruct ss as [self st]. cbn [fst snd] in *.
  destruct Hinv as (Hlo & Hz & Hsort & Hge & Hle & Hst).
  rewrite write_data_eq. cbv zeta.
  assert (Hsnoc : Forall (fun x => x <= t) (output_frames self)).
  { eapply Forall_impl; [|exact Hle]. simpl. intros x Hx. lra. }
  destruct (call_admits self (mkFrame objs mb t)) eqn:Ha;
    [specialize (G eq_refl)|rewrite app_nil_r];
    (destruct (Qlt_le_dec _ _);
     unfold window_inv; cbn [fst start_time last_output_time output_frames];
     [split_inv; try finish_inv; intros H; exfalso; apply H; reflexivity|]);
    (destruct (Qeq_bool (start_time self) 0) eqn:Hq;
     [apply Qeq_bool_iff in Hq; rewrite (Hz Hq); cbn [app]|
      assert (Hn : ~ start_time self == 0)
        by (intros H; apply Qeq_bool_iff in H; congruence);
      specialize (Hst Hn)]).
  - split_inv; finish_inv.
  - split_inv; try finish_inv.
    + apply Sorted_snoc; assumption.
    + apply Forall_app; split; [exact Hge|constructor; [lra|constructor]].
    + apply Forall_app; split; [exact Hsnoc|constructor; [lra|constructor]].
  - split_inv; finish_inv.
  - split_inv; try finish_inv.
Qed.

Lemma window_inv_run camera ss frames hi :
  window_inv hi (fst ss) -> Sorted Qle (hi :: map f_time frames) ->
  exists hi', window_inv hi' (fst (run_frames camera ss frames)).
Proof.
  revert ss hi. induction frames as [|f fs IH]; intros ss hi Hinv Hs; simpl.
  - exists hi. exact Hinv.
  - apply Sorted_inv in Hs as [Hs Hhd]. inversion Hhd as [|? ? Hle]; subst.
    pose proof (window_inv_step camera ss f hi Hle Hinv) as Hstep.
    destruct (write_frame camera ss f) as [[s' st'] h]. simpl in Hstep.
    apply (IH (s', st') (f_time f)); [exact Hstep|exact Hs].
Qed.

(** C8: when frames arrive with non-decreasing times, after every
    [write_data] call (any prefix of the stream, from a fresh recorder)
    [output_frames] is non-decreasing and no entry is before
    [start_time]. *)
Theorem output_frames_sorted_after_start camera st frames k :
  Sorted Qle (map f_time frames) ->
  let s := fst (run_frames camera (recorder_init, st) (firstn k frames)) in
  Sorted Qle (output_frames s) /\ Forall (fun x => start_time s <= x) (output_frames s).
Proof.
  intros Hs s.
  assert (Hpre : Sorted Qle (map f_time (firstn k frames))).
  { rewrite <- firstn_map. apply Sorted_firstn, Hs. }
  assert (exists hi, window_inv hi s) as (hi & _ & _ & Hsort & Hge & _).
  { unfold s. destruct (firstn k frames) as [|f fs] eqn:E.
    - exists 0. apply window_inv_init.
    - apply (window_inv_run camera _ _ (f_time f)); [apply window_inv_init|].
      simpl in *. constructor; [exact Hpre|constructor; apply Qle_refl]. }
  split; assumption.
Qed.

(** *** Further properties of the stream of calls *)

(** One call of [write_frame] on a record-shaped frame, as [write_data_eq]. *)
Ltac step_write_frame :=
  unfold write_frame; cbn [fst snd f_objects f_motion f_time];
  rewrite write_data_eq; cbv zeta.

(** X1: from a fresh recorder, [last_output_time] starts at 0, so no frame
    earlier than time 1 is ever admitted by the policy. *)
Theorem fresh_recorder_admits_from_one camera st frames :
  Forall (fun t => 1 <= t) (admitted_times camera (recorder_init, st) frames).
Proof.
  eapply Forall_impl; [|apply admitted_after_last].
  simpl. intros t Ht. lra.
Qed.

(** X2: no admitted frame is lost or duplicated: the handed-off segments,
    each without its final (closing) entry, followed by the open window's
    [output_frames], are exactly the initial [output_frames] followed by the
    frames [should_write_frame] admitted, in order. *)
Theorem segments_conserve_admitted camera ss frames :
  concat (map (@removelast Q) (handed_segments camera ss frames))
    ++ output_frames (fst (run_frames camera ss frames))
  = output_frames (fst ss) ++ admitted_times camera ss frames.
Proof.
  revert ss. induction frames as [|[objs mb t] fs IH]; intros [self st].
  - simpl. rewrite !app_nil_r. reflexivity.
  - cbn [handed_segments run_frames admitted_times]. step_write_frame.
    destruct (Qlt_le_dec _ _); cbn [fst output_frames concat map app].
    + rewrite removelast_last, <- app_assoc, IH. cbn [fst output_frames app].
      rewrite <- app_assoc. reflexivity.
    + rewrite IH. cbn [fst output_frames]. rewrite <- app_assoc. reflexivity.
Qed.

Lemma segments_conserve_appended camera ss frames :
  concat (handed_segments camera ss frames)
    ++ output_frames (fst (run_frames camera ss frames))
  = output_frames (fst ss) ++ appended_times camera ss frames.
Proof.
  revert ss. induction frames as [|[objs mb t] fs IH]; intros [self st].
  - simpl. rewrite !app_nil_r. reflexivity.
  - cbn [handed_segments run_frames appended_times]. step_write_frame.
    destruct (Qlt_le_dec _ _); cbn [fst output_frames concat app].
    + rewrite <- app_assoc, IH. cbn [fst output_frames app].
      rewrite <- !app_assoc. reflexivity.
    + rewrite IH. cbn [fst output_frames]. rewrite <- !app_assoc. reflexivity.
Qed.

Lemma Sorted_lower (hi t : Q) l :
  hi <= t -> Sorted Qle (t :: l) -> Sorted Qle (hi :: l).
Proof.
  intros Hle Hs. apply Sorted_inv in Hs as [Hs Hhd].
  constructor; [exact Hs|]. inversion Hhd; constructor; lra.
Qed.

Lemma Sorted_app_l (l m : list Q) : Sorted Qle (l ++ m) -> Sorted Qle l.
Proof.
  induction l as [|a l IH]; intros Hs; [constructor|].
  simpl in Hs. apply Sorted_inv in Hs as [Hs Hhd].
  constructor; [apply IH, Hs|].
  destruct l; simpl in *; constructor. inversion Hhd; assumption.
Qed.

Lemma Sorted_app_r (l m : list Q) : Sorted Qle (l ++ m) -> Sorted Qle m.
Proof.
  induction l as [|a l IH]; intros Hs; [exact Hs|].
  simpl in Hs. apply Sorted_inv in Hs as [Hs _]. apply IH, Hs.
Qed.

Lemma appended_sorted camera ss frames hi :
  Sorted Qle (hi :: map f_time frames) ->
  Sorted Qle (hi :: appended_times camera ss frames).
Proof.
  revert ss hi. induction frames as [|f fs IH]; intros ss hi Hs;
    [repeat constructor|].
  cbn [appended_times].
  apply Sorted_inv in Hs as [Hs Hhd]. inversion Hhd as [|? ? Hle]; subst.
  destruct (write_frame camera ss f) as [[s' st'] h].
  specialize (IH (s', st') (f_time f) Hs).
  assert (Hself : Sorted Qle (f_time f :: f_time f :: appended_times camera (s', st') fs)).
  { constructor; [exact IH|constructor; apply Qle_refl]. }
  destruct (call_admits (fst ss) f), h; cbn [app].
  - constructor; [exact Hself|constructor; exact Hle].
  - constructor; [exact IH|constructor; exact Hle].
  - constructor; [exact IH|constructor; exact Hle].
  - exact (Sorted_lower hi (f_time f) _ Hle IH).
Qed.

(** X3: when frames arrive with non-decreasing times, the segments are
    handed off in stream order: their concatenation, from a fresh
    recorder, is non-decreasing. *)
Theorem segments_handed_in_order camera st frames :
  Sorted Qle (map f_time frames) ->
  Sorted Qle (concat (handed_segments camera (recorder_init, st) frames)).
Proof.
  intros Hs.
  apply (Sorted_app_l _ (output_frames (fst (run_frames camera (recorder_init, st) frames)))).
  rewrite segments_conserve_appended. cbn [fst output_frames recorder_init app].
  destruct frames as [|f fs]; [constructor|].
  apply (Sorted_app_r [f_time f]), appended_sorted.
  constructor; [exact Hs|constructor; apply Qle_refl].
Qed.

Lemma handed_nonempty camera ss frames :
  Forall (fun h => h <> []) (handed_segments camera ss frames).
Proof.
  revert ss. induction frames as [|[objs mb t] fs IH]; intros [self st];
    [constructor|].
  cbn [handed_segments]. step_write_frame.
  destruct (Qlt_le_dec _ _); cbn [app]; [constructor|]; [|apply IH..].
  destruct (output_frames self ++ _); discriminate.
Qed.

Lemma Sorted_concat_each (L : list (list Q)) :
  Sorted Qle (concat L) -> Forall (Sorted Qle) L.
Proof.
  induction L as [|h L IH]; intros Hs; [constructor|].
  simpl in Hs. constructor.
  - exact (Sorted_app_l _ _ Hs).
  - apply IH, (Sorted_app_r h), Hs.
Qed.

(** X4: when frames arrive with non-decreasing times, every segment handed
    off from a fresh recorder yields a playlist (no [IndexError] in the
    playlist loop) whose durations are all non-negative and add up to the
    segment's last timestamp minus its first. *)
Theorem handed_playlists_well_timed camera st frames :
  Sorted Qle (map f_time frames) ->
  Forall (fun h => exists t0 pl,
            hd_error h = Some t0 /\
            build_playlist camera h = inr pl /\
            Forall (fun d => 0 <= d) (durations pl) /\
            sum_Q (durations pl) == last h t0 - t0)
         (handed_segments camera (recorder_init, st) frames).
Proof.
  intros Hs.
  pose proof (Sorted_concat_each _ (segments_handed_in_order camera st frames Hs)) as Hsort.
  pose proof (handed_nonempty camera (recorder_init, st) frames) as Hne.
  induction (handed_segments camera (recorder_init, st) frames) as [|h L IH];
    [constructor|].
  inversion Hsort as [|? ? Hh HL]; inversion Hne as [|? ? Hh0 HL0]; subst.
  constructor; [|apply IH; assumption].
  destruct h as [|t0 ts]; [contradiction|].
  exists t0. eexists. split; [reflexivity|]. split; [reflexivity|].
  rewrite durations_app. simpl (durations [_]). rewrite app_nil_r.
  split.
  - simpl. constructor; [lra|]. apply playlist_loop_durations_nonneg, Hh.
  - rewrite playlist_loop_durations_sum. reflexivity.
Qed.

Lemma write_frame_to_cache_keeps camera st t p :
  st p = true -> write_frame_to_cache camera st t p = true.
Proof. unfold write_frame_to_cache. intros ->. destruct (String.eqb _ _); reflexivity. Qed.

Lemma write_frame_to_cache_hit camera st t :
  write_frame_to_cache camera st t (cache_path camera t) = true.
Proof. unfold write_frame_to_cache. rewrite String.eqb_refl. reflexivity. Qed.

(** X5: [write_data] keeps every frame of the open window in the cache, and
    when it closes the window every timestamp of the handed-off list has its
    jpg in the cache at hand-off (within [write_data]'s own effects; the
    converters' cleanup runs later). *)
Theorem write_data_handed_frames_cached camera self st objs mb t :
  window_cached camera self st ->
  match write_data camera self st objs mb t with
  | (self', st', handed) =>
      window_cached camera self' st' /\
      match handed with
      | Some h => Forall (fun x => st' (cache_path camera x) = true) h
      | None => True
      end
  end.
Proof.
  unfold window_cached. intros Hc.
  rewrite write_data_eq. cbv zeta.
  set (st3 := if call_admits self (mkFrame objs mb t)
              then write_frame_to_cache camera st t else st).
  assert (H3 : Forall (fun x => st3 (cache_path camera x) = true)
                 (output_frames self ++
                  (if call_admits self (mkFrame objs mb t) then [t] else []))).
  { unfold st3. destruct (call_admits _ _).
    - apply Forall_app. split.
      + eapply Forall_impl; [|exact Hc]. intros x Hx.
        apply write_frame_to_cache_keeps, Hx.
      + constructor; [apply write_frame_to_cache_hit|constructor].
    - rewrite app_nil_r. exact Hc. }
  destruct (Qlt_le_dec _ _); cbn [output_frames].
  - split; [constructor|].
    apply Forall_app. split.
    + eapply Forall_impl; [|exact H3]. intros x Hx.
      apply write_frame_to_cache_keeps, Hx.
    + constructor; [apply write_frame_to_cache_hit|constructor].
  - split; [exact H3|exact I].
Qed.

Lemma run_completed_store c encoder st q st' :
  run c encoder st = Completed q st' ->
  st' = unlink_frames (conv_camera c) (conv_frame_times c) st.
Proof.
  unfold run, build_playlist.
  destruct (conv_frame_times c) as [|t0 [|t1 rest]]; try discriminate.
  intros H. injection H as _ <-. reflexivity.
Qed.

Lemma playlist_loop_files camera prev ts :
  playlist_files (playlist_loop camera prev ts) = map (cache_path camera) ts.
Proof.
  revert prev. induction ts as [|t ts IH]; intros prev; [reflexivity|].
  simpl. rewrite IH. reflexivity.
Qed.

Lemma last_In (l : list Q) d : l <> [] -> In (last l d) l.
Proof.
  induction l as [|a l IH]; intros Hne; [contradiction|].
  destruct l as [|b l]; [left; reflexivity|].
  right. apply IH. discriminate.
Qed.

Lemma existsb_eqb_In p l : existsb (String.eqb p) l = true <-> In p l.
Proof.
  rewrite existsb_exists. split.
  - intros (x & Hx & E). apply String.eqb_eq in E. subst. exact Hx.
  - intros H. exists p. split; [exact H|apply String.eqb_refl].
Qed.

(** X6: the files [run] deletes are exactly the files its playlist names:
    after a completed run, a path listed in the playlist is gone and every
    other path is as before. *)
Theorem run_deletes_exactly_playlist_files c encoder st pl q st' :
  build_playlist (conv_camera c) (conv_frame_times c) = inr pl ->
  run c encoder st = Completed q st' ->
  forall p, (In p (playlist_files pl) -> st' p = false) /\
            (~ In p (playlist_files pl) -> st' p = st p).
Proof.
  intros Hpl Hrun p.
  rewrite (run_completed_store c encoder st q st' Hrun), unlink_frames_spec.
  assert (Hiff : In p (playlist_files pl) <-> In p (map (cache_path (conv_camera c)) (conv_frame_times c))).
  { unfold build_playlist in Hpl.
    destruct (conv_frame_times c) as [|t0 ts] eqn:E; [discriminate|].
    assert (Epl : playlist_loop (conv_camera c) t0 (t0 :: ts)
                    ++ [PFile (cache_path (conv_camera c) (last (t0 :: ts) t0))] = pl)
      by (injection Hpl; intros H; exact H).
    subst pl.
    unfold playlist_files. rewrite flat_map_app.
    fold (playlist_files (playlist_loop (conv_camera c) t0 (t0 :: ts))).
    rewrite playlist_loop_files. cbn [flat_map app]. rewrite in_app_iff.
    split; [|intros H; left; exact H].
    intros [H|[H|[]]]; [exact H|]. subst p.
    apply in_map, last_In. discriminate. }
  split.
  - intros H. apply Hiff, existsb_eqb_In in H. rewrite H. reflexivity.
  - intros H. destruct (existsb _ _) eqn:Ex; [|reflexivity].
    exfalso. apply H, Hiff, existsb_eqb_In, Ex.
Qed.

Lemma run_short_raises c encoder st :
  (length (conv_frame_times c) < 2)%nat -> run c encoder st = Raised IndexError [] st.
Proof.
  unfold run, build_playlist.
  destruct (conv_frame_times c) as [|t0 [|t1 rest]]; simpl; intros H;
    [reflexivity|reflexivity|lia].
Qed.

(** X7: [run] raises [IndexError], queuing nothing and deleting nothing,
    exactly when its list has fewer than two timestamps, whatever the
    encoder does. *)
Theorem run_raises_iff_short c encoder st :
  (length (conv_frame_times c) < 2)%nat <-> run c encoder st = Raised IndexError [] st.
Proof.
  split; [apply run_short_raises|].
  unfold run, build_playlist.
  destruct (conv_frame_times c) as [|t0 [|t1 rest]]; simpl; intros H;
    [lia|lia|discriminate].
Qed.



End Preview.

(** ** Concrete instances *)

Lemma build_playlist_durations_witness :
  exists playlist,
    build_playlist demo_float_str demo_cache_dir "front" [100; 131; 131]
      = inr playlist /\
    sum_Q (durations playlist) == 31.
Proof.
  destruct (build_playlist_durations demo_float_str demo_cache_dir "front"
              100 [131; 131]) as (pl & E & _ & _ & _ & Hsum).
  - repeat constructor; vm_compute; discriminate.
  - exists pl. split; [exact E|]. rewrite Hsum. reflexivity.
Defined.

Lemma run_cleans_own_frames_witness :
  exists q st',
    run demo_float_str demo_cache_dir
        (mkConverter "front" [100; 131; 131] "out.mp4") (fun _ => 1%Z)
        (fun _ => true) = Completed q st' /\
    st' (cache_path demo_float_str demo_cache_dir "front" 100) = false.
Proof.
  destruct (run_cleans_own_frames demo_float_str demo_cache_dir
              (mkConverter "front" [100; 131; 131] "out.mp4") (fun _ => 1%Z)
              (fun _ => true)) as [Hclean Hdone].
  destruct Hdone as (q & st' & E); [simpl; lia|].
  exists q, st'. split; [exact E|].
  rewrite (Hclean q st' E). reflexivity.
Defined.

Lemma output_frames_sorted_after_start_witness :
  let s := fst (run_frames demo_float_str demo_cache_dir "front"
                  (recorder_init, no_files)
                  (firstn 1 admitted_then_rejected_close)) in
  output_frames s = [100] /\
  Forall (fun x => start_time s <= x) (output_frames s).
Proof.
  split; [reflexivity|].
  refine (proj2 (output_frames_sorted_after_start demo_float_str demo_cache_dir
                   "front" no_files admitted_then_rejected_close 1 _)).
  repeat constructor; vm_compute; discriminate.
Defined.

Lemma write_data_window_transitions_witness :
  start_time (fst (fst (write_data demo_float_str demo_cache_dir "front"
                          open_at_100 no_files [] [] 131))) = 131.
Proof.
  pose proof (write_data_window_transitions demo_float_str demo_cache_dir
                "front" open_at_100 no_files [] [] 131) as H.
  cbv zeta in H.
  destruct (write_data demo_float_str demo_cache_dir "front" open_at_100
              no_files [] [] 131) as [[s' st'] h].
  destruct H as (_ & Hiff & Hclose & _).
  apply Hclose, Hiff. vm_compute. reflexivity.
Defined.

Lemma write_data_forced_frame_keeps_last_output_witness :
  last_output_time (fst (fst (write_data demo_float_str demo_cache_dir "front"
                                open_at_100 no_files [] [] 131))) = 100.
Proof.
  pose proof (write_data_forced_frame_keeps_last_output demo_float_str
                demo_cache_dir "front" open_at_100 no_files [] [] 131) as H.
  cbv zeta in H.
  assert (Ha : call_admits open_at_100 (mkFrame [] [] 131) = false)
    by (vm_compute; reflexivity).
  rewrite Ha in H.
  destruct (write_data demo_float_str demo_cache_dir "front" open_at_100
              no_files [] [] 131) as [[s' st'] h].
  destruct H as (_ & Hlo & _). exact Hlo.
Defined.



Lemma segments_handed_in_order_witness :
  concat (handed_segments demo_float_str demo_cache_dir "front"
            (recorder_init, no_files) admitted_then_rejected_close) = [100; 131] /\
  Sorted Qle (concat (handed_segments demo_float_str demo_cache_dir "front"
                        (recorder_init, no_files) admitted_then_rejected_close)).
Proof.
  split; [reflexivity|].
  apply segments_handed_in_order.
  repeat constructor; vm_compute; discriminate.
Defined.

Lemma handed_playlists_well_timed_witness :
  Forall (fun h => exists t0 pl,
            hd_error h = Some t0 /\
            build_playlist demo_float_str demo_cache_dir "front" h = inr pl /\
            Forall (fun d => 0 <= d) (durations pl) /\
            sum_Q (durations pl) == last h t0 - t0)
         (handed_segments demo_float_str demo_cache_dir "front"
            (recorder_init, no_files) admitted_then_rejected_close).
Proof.
  apply handed_playlists_well_timed.
  repeat constructor; vm_compute; discriminate.
Defined.

Lemma write_data_handed_frames_cached_witness :
  let st := write_frame_to_cache demo_float_str demo_cache_dir "front" no_files 100 in
  match write_data demo_float_str demo_cache_dir "front" open_at_100 st [] [] 131 with
  | (self', st', handed) =>
      window_cached demo_float_str demo_cache_dir "front" self' st' /\
      match handed with
      | Some h => Forall (fun x => st' (cache_path demo_float_str demo_cache_dir "front" x) = true) h
      | None => True
      end
  end.
Proof.
  apply write_data_handed_frames_cached.
  unfold window_cached. repeat constructor.
Defined.

Lemma run_deletes_exactly_playlist_files_witness :
  exists pl q st',
    build_playlist demo_float_str demo_cache_dir "front" [100; 131; 131] = inr pl /\
    run demo_float_str demo_cache_dir (mkConverter "front" [100; 131; 131] "out.mp4")
        (fun _ => 0%Z) (fun _ => true) = Completed q st' /\
    st' (cache_path demo_float_str demo_cache_dir "front" 131) = false.
Proof.
  set (c := mkConverter "front" [100; 131; 131] "out.mp4").
  set (pl := playlist_loop demo_float_str demo_cache_dir "front" 100 [100; 131; 131]
               ++ [PFile (cache_path demo_float_str demo_cache_dir "front" 131)]).
  set (st' := unlink_frames demo_float_str demo_cache_dir "front" [100; 131; 131]
                (fun _ => true)).
  assert (Hpl : build_playlist demo_float_str demo_cache_dir (conv_camera c)
                  (conv_frame_times c) = inr pl) by reflexivity.
  assert (Hrun : run demo_float_str demo_cache_dir c (fun _ => 0%Z) (fun _ => true)
                 = Completed [preview_row demo_float_str c 100 131] st') by reflexivity.
  exists pl, [preview_row demo_float_str c 100 131], st'.
  split; [exact Hpl|]. split; [exact Hrun|].
  apply (run_deletes_exactly_playlist_files demo_float_str demo_cache_dir c
           (fun _ => 0%Z) (fun _ => true) pl _ st' Hpl Hrun).
  unfold pl. cbn. auto.
Defined.

Lemma run_raises_iff_short_witness :
  run demo_float_str demo_cache_dir (mkConverter "front" [131] "out.mp4")
      (fun _ => 0%Z) no_files = Raised IndexError [] no_files.
Proof.
  apply (run_raises_iff_short demo_float_str demo_cache_dir
           (mkConverter "front" [131] "out.mp4") (fun _ => 0%Z) no_files).
  simpl. lia.
Defined.

